(** * pyvibs: modal response of a 2-DOF beam (examples/vibs1.ipynb)

    Shallow embedding of the notebook's numerical cells, followed by the
    properties of its model builder, modal quantities and frequency
    response functions.

    Number model.  The notebook computes with numpy [float64] and
    [complex128] values.  Here a float is a real number of [R] and a
    complex is a pair of reals: rounding is not represented, every decimal
    literal denotes the rational it spells, and division is the total
    division of [R].  Where numpy produces the non-finite values [-inf] and
    [nan] that a statement is about ([np.log10] at and below zero), they
    are written out as an explicit result type; numpy's [inf] and [nan] of
    a division by zero and [nan] of the square root of a negative number
    are not, and the total functions of [R] stand there.  Indices are natural
    numbers; Python's negative indices are not modelled.

    The two cells with numerical examples are also given in IEEE binary64
    (module [Binary64]), where they run with the rounding of the notebook. *)

From Stdlib Require Import Reals Lra List PeanoNat.
From Stdlib Require PrimFloat String DecimalString.
From Stdlib Require Import Lia.
Import ListNotations.
Local Open Scope R_scope.

Set Implicit Arguments.

(** ** Python [complex] *)

Module Cplx.

Record C : Type := mkC { re : R; im : R }.

(** promotion of a float operand in mixed arithmetic *)
Definition of_real (x : R) : C := mkC x 0.

(** the literals [1j] and [2j] *)
Definition j1 : C := mkC 0 1.
Definition j2 : C := mkC 0 2.

Definition zero : C := mkC 0 0.

Definition add (x y : C) : C := mkC (re x + re y) (im x + im y).
Definition sub (x y : C) : C := mkC (re x - re y) (im x - im y).
Definition mul (x y : C) : C :=
  mkC (re x * re y - im x * im y) (re x * im y + im x * re y).
Definition norm2 (x : C) : R := re x * re x + im x * im x.
Definition div (x y : C) : C :=
  mkC ((re x * re y + im x * im y) / norm2 y)
      ((im x * re y - re x * im y) / norm2 y).

(** [np.conj] *)
Definition conj (x : C) : C := mkC (re x) (- im x).

(** [np.abs] *)
Definition abs (x : C) : R := sqrt (norm2 x).

End Cplx.

Import Cplx.

(** ** numpy arrays

    A 1-D array is a list, a 2-D array the list of its rows, which all have
    the same length.  The notebook combines arrays of agreeing shapes only
    (numpy raises otherwise); on other lists the definitions below pair the
    entries up to the shorter length. *)

Definition vec := list R.
Definition mat := list (list R).
Definition cvec := list C.
Definition cmat := list (list C).

(** a binary operator applied to two arrays of the same shape *)
Definition zipwith (X Y Z : Type) (f : X -> Y -> Z) (xs : list X) (ys : list Y)
  : list Z :=
  map (fun p => f (fst p) (snd p)) (combine xs ys).

(** [np.eye(n)] *)
Definition eye (n : nat) : mat :=
  map (fun i => map (fun k => if Nat.eqb i k then 1 else 0) (seq 0 n)) (seq 0 n).

(** [c * A] for a float [c] and a 2-D array [A] *)
Definition smul (c : R) (A : mat) : mat := map (map (Rmult c)) A.

(** [A * u] for a 2-D array [A] and a 1-D array [u]: [u] is broadcast along
    the rows. *)
Definition mul_row (A : mat) (u : vec) : mat :=
  map (fun row => zipwith Rmult row u) A.

(** [A + B] for two 2-D arrays *)
Definition madd (A B : mat) : mat := zipwith (zipwith Rplus) A B.

(** [A[:, k]]: column [k] of a 2-D array *)
Definition col (k : nat) (A : mat) : vec := map (fun row => nth k row 0) A.

(** [A.shape[0]] and [A.shape[1]] *)
Definition nrows (A : mat) : nat := length A.
Definition ncols (A : mat) : nat := length (hd [] A).

(** [A.T] *)
Definition transpose (A : mat) : mat := map (fun k => col k A) (seq 0 (ncols A)).

(** inner product of two 1-D arrays *)
Definition inner (u u' : vec) : R := fold_right Rplus 0 (zipwith Rmult u u').

(** [np.dot(A, B)], also written [A @ B] *)
Definition dot (A B : mat) : mat :=
  map (fun row => map (fun k => inner row (col k B)) (seq 0 (ncols B))) A.

(** [np.diag(A)] of a 2-D array *)
Definition diag (A : mat) : vec :=
  map (fun i => nth i (nth i A []) 0) (seq 0 (Nat.min (nrows A) (ncols A))).

(** [np.outer(u, u')] *)
Definition outer (u u' : vec) : mat := map (fun x => map (Rmult x) u') u.

(** [q * A] for a complex [q] and a real 2-D array [A] *)
Definition cscale (q : C) (A : mat) : cmat :=
  map (map (fun x => mul q (of_real x))) A.

(** [np.linspace(start, stop, num)] *)
Definition linspace (start stop : R) (num : nat) : vec :=
  map (fun n => start + INR n * ((stop - start) / (INR num - 1))) (seq 0 num).

(** Indexing raises [IndexError] past the end of a list or an array: a
    computation that indexes returns an [option]. *)
Definition bind (X Y : Type) (m : option X) (f : X -> option Y) : option Y :=
  match m with
  | Some x => f x
  | None => None
  end.

Notation "x <- m ;; f" := (bind m (fun x => f))
  (at level 61, m at next level, right associativity).

Fixpoint mapM (X Y : Type) (f : X -> option Y) (xs : list X) : option (list Y) :=
  match xs with
  | [] => Some []
  | x :: xs' => y <- f x ;; ys <- mapM f xs' ;; Some (y :: ys)
  end.

(** [A[i][k]] *)
Definition entry (X : Type) (A : list (list X)) (i k : nat) : option X :=
  row <- nth_error A i ;; nth_error row k.

(** ** Cell "Build Beam" *)

Module ModelBuilder.
Section Beam.
(** [b], [h], [E], [l], [grav] are the cell's inputs; [rho] is the density
    factor that the cell writes inline as [.29]. *)
Variables b h E l grav rho : R.

Definition I : R := b * (h ^ 3) / 12.

Definition mbar : R :=
  let mbar := b * h * rho in
  mbar / grav.

Definition k1 : R := E * I / (l ^ 3) * 300.
Definition k2 : R := E * I / l ^ 3 * 300.

Definition M : mat := smul (mbar * l / 2) (eye 2).

Definition k : mat := smul (E * I / (l ^ 3)) [[12; -12]; [-12; 12]].
Definition K : mat := madd k (mul_row (eye 2) [k1; k2]).
End Beam.
End ModelBuilder.

(** ** Cell "Eigenvalue Decomposition" *)

Module ModalSolver.
Section Modal.
(** The cell starts with [d, v = la.eigh(K, M)].  The solver is scipy's;
    its results, the eigenvalues [d] and the matrix [v] whose columns are
    the eigenvectors, are the parameters of what the cell computes next. *)
Variables (K M : mat) (d : vec) (v : mat).
(** [dampr = .05] in the cell *)
Variable dampr : R.

Definition w : vec := map sqrt d.

Definition Mr : mat := dot (dot (transpose v) M) v.
Definition Kr : mat := dot (dot (transpose v) K) v.

Definition dampf : vec := map (Rmult (- dampr)) w.

Definition wn : vec :=
  map sqrt (zipwith Rplus (map (fun x => x ^ 2) w) (map (fun x => x ^ 2) dampf)).

Definition roots : cvec :=
  zipwith add (map of_real dampf) (map (fun x => mul j1 (of_real x)) wn).
End Modal.
End ModalSolver.

(** ** Cells "Transfer Function" and "Frequency Response Function (FRF) Plots" *)

(** A float that [np.log10] returns for a real argument: finite, [-inf]
    (at zero) or [nan] (below zero). *)
Inductive npfloat : Type :=
| Finite (x : R)
| NegInf
| NaN.

(** [np.log10] at one entry *)
Definition log10 (x : R) : npfloat :=
  if Rlt_dec 0 x then Finite (ln x / ln 10)
  else if Req_dec_T x 0 then NegInf
  else NaN.

(** [20 * y] at one entry *)
Definition times20 (y : npfloat) : npfloat :=
  match y with
  | Finite x => Finite (20 * x)
  | NegInf => NegInf
  | NaN => NaN
  end.

Module FRFSynthesizer.

Definition ns : nat := 128.

Definition freqs : vec := linspace (-25) 25 ns.

(** the array operations of the body of [frf_build_sdof], by name *)
Definition j_times (f : vec) : cvec := map (fun x => mul j1 (of_real x)) f.
Definition minus_scalar (z : cvec) (r : C) : cvec := map (fun x => sub x r) z.
Definition scalar_over (a : C) (z : cvec) : cvec := map (div a) z.
Definition plus (z z' : cvec) : cvec := zipwith add z z'.

Definition frf_build_sdof (a r : C) (f : vec) : cvec :=
  let h := plus (scalar_over a (minus_scalar (j_times f) r))
                (scalar_over (conj a) (minus_scalar (j_times f) (conj r))) in
  h.

Definition mag2db (x : vec) : list npfloat := map times20 (map log10 x).

Section Residues.
(** [M] and the solver's results [d], [v] as in the cell before; the arrays
    [np.diag(Mr)], [wn] and the columns of [v] all have length [N] then. *)
Variables (M : mat) (d : vec) (v : mat) (dampr : R).

Let Mr := ModalSolver.Mr M v.
Let wn := ModalSolver.wn d dampr.
Let roots := ModalSolver.roots d dampr.

Definition ne : nat := ncols v.

(** allocated for the full FRF and never written to *)
Definition HH : list (list vec) :=
  repeat (repeat (repeat 0 ns) (ncols v)) (nrows v).

Definition qr : cvec :=
  map (div (of_real 1))
      (zipwith (fun z x => mul z (of_real x))
               (map (fun x => mul j2 (of_real x)) (diag Mr)) wn).

Definition A : option (list cmat) :=
  mapM (fun mode =>
          q <- nth_error qr mode ;;
          Some (cscale q (outer (col mode v) (col mode v))))
       (seq 0 ne).

(** [A[mode][iout][iin]] *)
Definition residue (mode iout iin : nat) : option C :=
  Al <- A ;; Am <- nth_error Al mode ;; entry Am iout iin.

(** [h = frf_build_sdof(A[mode][iout][iin], roots[mode], freqs)], for any
    sweep in the place of [freqs] *)
Definition h (freqs : vec) (mode iout iin : nat) : option cvec :=
  a <- residue mode iout iin ;;
  r <- nth_error roots mode ;;
  Some (frf_build_sdof a r freqs).
End Residues.

End FRFSynthesizer.

(** ** Superposition of modes

    The notebook has no multi-mode FRF: its loop over the modes has the body
    [pass], and the array [HH] allocated for the full FRF is never
    filled. *)

(** [A[mode][iout][iin]] and [pole[mode]] for every mode, in order *)
Definition mode_terms (A : list cmat) (pole : cvec) (iout iin : nat)
  : option (list (C * C)) :=
  mapM (fun mode =>
          Am <- nth_error A mode ;;
          a <- entry Am iout iin ;;
          r <- nth_error pole mode ;;
          Some (a, r))
       (seq 0 (length A)).

(** the sum of a finite family of complex numbers *)
Definition csum (zs : list C) : C := fold_right add zero zs.

(** Modelled from the spec: the multi-mode FRF of the FRFSynthesizer, which
    the notebook does not implement.
    [H(f_k) = sum over mode of A[mode][iout,iin] / (i*f_k - pole[mode])
              + conj(A[mode][iout,iin]) / (i*f_k - conj(pole[mode]))],
    one value per entry of the sweep [f]. *)
Definition frf_multi_mode (A : list cmat) (pole : cvec) (f : vec)
    (iout iin : nat) : option cvec :=
  ms <- mode_terms A pole iout iin ;;
  Some (map (fun f_k =>
               csum (map (fun m : C * C =>
                            let (a, r) := m in
                            add (div a (sub (mul j1 (of_real f_k)) r))
                                (div (conj a)
                                     (sub (mul j1 (of_real f_k)) (conj r))))
                         ms))
            f).

(** the elementwise sum of arrays of length [n], accumulated from
    [np.zeros(n)] *)
Definition sum_arrays (n : nat) (hs : list cvec) : cvec :=
  fold_left (zipwith add) hs (repeat zero n).

(** the single-mode FRF of every mode, each built by [frf_build_sdof] *)
Definition single_mode_frfs (A : list cmat) (pole : cvec) (f : vec)
    (iout iin : nat) : option (list cvec) :=
  ms <- mode_terms A pole iout iin ;;
  Some (map (fun m : C * C =>
               FRFSynthesizer.frf_build_sdof (fst m) (snd m) f) ms).

(** ** Outputs stored in the notebook

    The values that the notebook file records as printed by its cells:
    the eigenvalues and eigenvectors returned by [la.eigh], and the residue
    matrices [A]. *)

Definition d_out : vec := [134.16666667; 144.9].

Definition v_out : mat :=
  [[-0.30418536; -0.30418536]; [-0.30418536; 0.30418536]].

Definition A_out : list cmat :=
  [ [[mkC 0 (-0.00398917); mkC 0 (-0.00398917)];
     [mkC 0 (-0.00398917); mkC 0 (-0.00398917)]];
    [[mkC 0 (-0.00383858); mkC 0 0.00383858];
     [mkC 0 0.00383858; mkC 0 (-0.00383858)]] ].

(** the mass and stiffness matrices of the "Build Beam" cell *)
Definition M_beam : mat := ModelBuilder.M 1 12 1200 386.4 0.29.
Definition K_beam : mat := ModelBuilder.K 1 12 29e6 1200.

(** ** The numerical cells in IEEE binary64

    The cells "Build Beam" and "Eigenvalue Decomposition" (after the
    solver) over Rocq's primitive floats: the binary64 numbers of Python's
    [float] and numpy's [float64], with the same correctly rounded [+], [-],
    [*], [/] and [sqrt], and decimal literals rounded to the nearest
    float.  [h**3] and [l**3] are powers of Python integers, exact in
    binary64 for the inputs used here. *)

Module Binary64.
Import PrimFloat.
Local Open Scope float_scope.
#[local] Set Warnings "-inexact-float".

Definition fvec := list float.
Definition fmat := list (list float).

Definition eye (n : nat) : fmat :=
  map (fun i => map (fun k => if Nat.eqb i k then 1 else 0) (seq 0 n)) (seq 0 n).
Definition smul (c : float) (A : fmat) : fmat := map (map (mul c)) A.
Definition mul_row (A : fmat) (u : fvec) : fmat :=
  map (fun row => zipwith mul row u) A.
Definition madd (A B : fmat) : fmat := zipwith (zipwith add) A B.

Definition cube (x : float) : float := x * x * x.
Definition square (x : float) : float := x * x.

Section Beam.
Variables b h E l grav rho : float.

Definition I : float := b * cube h / 12.

Definition mbar : float :=
  let mbar := b * h * rho in
  mbar / grav.

Definition k1 : float := E * I / cube l * 300.
Definition k2 : float := E * I / cube l * 300.

Definition M : fmat := smul (mbar * l / 2) (eye 2).

Definition k : fmat := smul (E * I / cube l) [[12; -12]; [-12; 12]].
Definition K : fmat := madd k (mul_row (eye 2) [k1; k2]).
End Beam.

Section Modal.
Variables (d : fvec) (dampr : float).

Definition w : fvec := map sqrt d.
Definition dampf : fvec := map (mul (- dampr)) w.
Definition wn : fvec :=
  map sqrt (zipwith add (map square w) (map square dampf)).
End Modal.

(** entrywise [|x - y| <= tol], as a test *)
Definition close (tol : float) (x y : fvec) : bool :=
  forallb (fun p => abs (fst p - snd p) <=? tol) (combine x y).

Definition closem (tol : float) (X Y : fmat) : bool :=
  forallb (fun p => close tol (fst p) (snd p)) (combine X Y).

(** the inputs of the two examples *)
Definition M_beam : fmat := M 1 12 1200 386.4 0.29.
Definition K_beam : fmat := K 1 12 29e6 1200.
Definition d_example : fvec := [134.1667; 144.9].
Definition dampr_example : float := 0.05.

(** the floats that Python computes for them *)
Definition M_value : fmat :=
  [[5.403726708074534; 0]; [0; 5.403726708074534]].
Definition K_value : fmat := [[754; -29]; [-29; 754]].
Definition w_value : fvec := [11.583035008148771; 12.037441588643327].
Definition dampf_value : fvec := [-0.5791517504074386; -0.6018720794321664].
Definition wn_value : fvec := [11.59750476395677; 12.052478998114868].

(** the tolerance tests of the two examples *)
Definition beam_within_tolerance : bool :=
  (closem 1e-2 M_beam [[5.404; 0]; [0; 5.404]] &&
   closem 1e-2 K_beam [[754; -29]; [-29; 754]])%bool.

Definition damping_within_tolerance : bool :=
  (close 1e-3 (w d_example) [11.583; 12.038] &&
   close 1e-4 (dampf d_example dampr_example) [-0.5791; -0.6019] &&
   close 1e-3 (wn d_example dampr_example) [11.598; 12.053])%bool.
End Binary64.

(** ** Vocabulary of the statements *)

(** [X] and [Y] have the same shape and agree entrywise within [tol]. *)
Definition mat_close (tol : R) (X Y : mat) : Prop :=
  Forall2 (Forall2 (fun x y => Rabs (x - y) <= tol)) X Y.

Definition vec_close (tol : R) (x y : vec) : Prop :=
  Forall2 (fun a c => Rabs (a - c) <= tol) x y.

(** the damped frequency of one mode, as the cell computes it *)
Definition wn_of (dampr x : R) : R :=
  sqrt (sqrt x ^ 2 + (- (dampr * sqrt x)) ^ 2).

(** the value of one conjugate pair of terms at one frequency *)
Definition frf_term (a r : C) (f_k : R) : C :=
  add (div a (sub (mul j1 (of_real f_k)) r))
      (div (conj a) (sub (mul j1 (of_real f_k)) (conj r))).

(** ** Cell "Beam Plots"

    The plotting surface receives data only: a figure is what has been drawn
    on it and set for it when [plt.show()] displays it. *)

Module ModeShapePlotter.
Import String.
Local Open Scope string_scope.

(** what one [ax.plot(x, y, fmt)] draws *)
Record line : Type := mkLine { xdata : vec; ydata : vec; fmt : string }.

Record figure : Type := mkFigure {
  lines : list line;
  ylim : R * R;
  xlabel : string;
  ylabel : string;
  title : string
}.

(** [str(n)] of a Python integer that is not negative, as [format] prints
    it *)
Definition str (n : nat) : string :=
  DecimalString.NilZero.string_of_uint (Nat.to_uint n).

Section Plots.
Variables (l : R) (v : mat).

Definition coords : mat := [[0; l]; [0; 0]].

Definition plot_undeformed : line :=
  mkLine (nth 0 coords []) (nth 1 coords []) "o--".

(** the figures of the loop [for mode in range(v.shape[1])], in order *)
Definition figures : list figure :=
  map (fun mode =>
         mkFigure
           [ plot_undeformed;
             mkLine (zipwith Rplus (nth 0 coords []) (col mode v))
                    (zipwith Rplus (nth 1 coords []) (col mode v))
                    "o-" ]
           (-0.5, 0.5)%R
           "Beam Length [in]"
           "Modal Amplitude"
           ("Mode " ++ str (mode + 1)))
      (seq 0 (ncols v)).
End Plots.
End ModeShapePlotter.

(** ** More vocabulary *)



(** the eigenvalues and the mass-normalised mode shapes of the pair
    [K = c * [[312, -12], [-12, 312]]], [M = m * eye(2)], in the order and
    with the signs that the notebook prints *)
Definition beam_d (c m : R) : vec := [300 * c / m; 324 * c / m].

Definition beam_v (m : R) : mat :=
  let s := / sqrt (2 * m) in [[- s; - s]; [- s; s]].

(** [A] has shape [(N, N)] *)
Definition square_shape (X : Type) (N : nat) (A : list (list X)) : Prop :=
  length A = N /\ Forall (fun row => length row = N) A.

(** [A[k][l]], and [0] outside the array *)
Definition item (A : mat) (k l : nat) : R := nth l (nth k A []) 0.



(** * Properties *)

(** ** Complex arithmetic *)

Lemma C_eq (x y : C) : re x = re y -> im x = im y -> x = y.
Proof. destruct x, y; simpl; intros -> ->; reflexivity. Qed.

Lemma add_comm (x y : C) : add x y = add y x.
Proof. apply C_eq; simpl; ring. Qed.

Lemma add_assoc (x y z : C) : add x (add y z) = add (add x y) z.
Proof. apply C_eq; simpl; ring. Qed.

Lemma norm2_conj (y : C) : norm2 (conj y) = norm2 y.
Proof. unfold norm2, conj; simpl. ring. Qed.

Lemma conj_add (x y : C) : conj (add x y) = add (conj x) (conj y).
Proof. apply C_eq; simpl; ring. Qed.

Lemma conj_div (x y : C) : conj (div x y) = div (conj x) (conj y).
Proof.
  unfold div. rewrite norm2_conj.
  apply C_eq; simpl; unfold Rdiv; ring.
Qed.

Lemma conj_conj (x : C) : conj (conj x) = x.
Proof. apply C_eq; simpl; ring. Qed.

Lemma abs_nonneg (z : C) : 0 <= abs z.
Proof. apply sqrt_pos. Qed.

Lemma abs_zero_iff (z : C) : abs z = 0 <-> z = zero.
Proof.
  split.
  - intros H. unfold abs in H.
    assert (Hn : 0 <= norm2 z) by (unfold norm2; nra).
    apply sqrt_eq_0 in H; [| exact Hn].
    unfold norm2 in H. apply C_eq; simpl; nra.
  - intros ->. unfold abs, norm2; simpl.
    replace (0 * 0 + 0 * 0) with 0 by ring. apply sqrt_0.
Qed.

(** ** Arrays *)

Section Broadcast.
Variables X Y Z : Type.

Lemma zipwith_nth_error (f : X -> Y -> Z) xs ys n :
  nth_error (zipwith f xs ys) n =
  match nth_error xs n, nth_error ys n with
  | Some x, Some y => Some (f x y)
  | _, _ => None
  end.
Proof.
  revert ys n. induction xs as [|x xs IH]; intros [|y ys] [|n]; simpl; auto.
  - destruct (nth_error xs n); reflexivity.
  - apply IH.
Qed.

Lemma zipwith_map_map (g : X -> C) (g' : X -> C) (xs : list X) :
  zipwith add (map g xs) (map g' xs) = map (fun x => add (g x) (g' x)) xs.
Proof.
  unfold zipwith. induction xs as [|x xs IH]; simpl; [reflexivity |].
  f_equal. exact IH.
Qed.

Lemma repeat_map (z : Z) (xs : list X) :
  repeat z (length xs) = map (fun _ => z) xs.
Proof. induction xs as [|x xs IH]; simpl; [| rewrite IH]; reflexivity. Qed.

Lemma mapM_nth_error (f : X -> option Y) (xs : list X) (ys : list Y) :
  mapM f xs = Some ys ->
  forall n y, nth_error ys n = Some y ->
  exists x, nth_error xs n = Some x /\ f x = Some y.
Proof.
  revert ys. induction xs as [|x xs IH]; simpl; intros ys H n y Hn.
  - injection H as <-. destruct n; discriminate.
  - destruct (f x) as [y0|] eqn:Hx; simpl in H; [| discriminate].
    destruct (mapM f xs) as [ys0|] eqn:Hxs; simpl in H; [| discriminate].
    injection H as <-. destruct n as [|n]; simpl in Hn.
    + injection Hn as <-. exists x. split; [reflexivity | assumption].
    + destruct (IH ys0 eq_refl n y Hn) as (x' & H1 & H2).
      exists x'. split; assumption.
Qed.
End Broadcast.

Lemma mat2_eq (X : Type) (a b c d a' b' c' d' : X) :
  a = a' -> b = b' -> c = c' -> d = d' ->
  [[a; b]; [c; d]] = [[a'; b']; [c'; d']].
Proof. intros -> -> -> ->; reflexivity. Qed.

Lemma entry_outer (u u' : vec) (i k : nat) :
  entry (outer u u') i k =
  match nth_error u i, nth_error u' k with
  | Some x, Some y => Some (x * y)
  | _, _ => None
  end.
Proof.
  unfold entry, outer. rewrite nth_error_map.
  destruct (nth_error u i) as [x|]; simpl; [| reflexivity].
  rewrite nth_error_map. destruct (nth_error u' k); reflexivity.
Qed.

Lemma entry_cscale (q : C) (B : mat) (i k : nat) :
  entry (cscale q B) i k = option_map (fun x => mul q (of_real x)) (entry B i k).
Proof.
  unfold entry, cscale. rewrite nth_error_map.
  destruct (nth_error B i) as [row|]; simpl; [| reflexivity].
  apply nth_error_map.
Qed.

(** ** Closeness within a tolerance *)

Lemma Rabs_le_iff (x tol : R) : - tol <= x <= tol -> Rabs x <= tol.
Proof. intros [H1 H2]. apply Rabs_le. split; assumption. Qed.

Lemma Rabs_close (x c lo hi tol : R) :
  lo <= x <= hi -> c - tol <= lo -> hi <= c + tol -> Rabs (x - c) <= tol.
Proof. intros [H1 H2] H3 H4. apply Rabs_le_iff. lra. Qed.

Lemma sqrt_between (lo hi x : R) :
  0 <= lo -> lo * lo <= x -> x <= hi * hi -> 0 <= hi -> lo <= sqrt x <= hi.
Proof.
  intros Hlo H1 H2 Hhi. split.
  - rewrite <- (sqrt_square lo) by assumption. apply sqrt_le_1_alt, H1.
  - rewrite <- (sqrt_square hi) by assumption. apply sqrt_le_1_alt, H2.
Qed.

Lemma pow2_sqrt (x : R) : 0 <= x -> sqrt x ^ 2 = x.
Proof. intros H. simpl. rewrite Rmult_1_r. apply sqrt_sqrt, H. Qed.

Ltac entrywise :=
  repeat first [apply Forall2_nil | apply Forall2_cons];
  try (apply Rabs_le_iff; lra).

(** ** The beam model *)

(** C3.  With [b = 1], [h = 12], [E = 29e6], [l = 1200], [grav = 386.4] and
    density [0.29], the mass matrix is diagonal with two equal diagonal
    entries and is within [1e-2] of [diag(5.404, 5.404)]; the stiffness
    matrix is within [1e-2] of [[754, -29], [-29, 754]]; and the beam term
    of the stiffness, each entry of [k] before the boundary springs are
    added, is [E*I/l^3*12] up to its sign, which is also the off-diagonal
    entry of [K].  The two tolerances also hold for the matrices computed
    in binary64. *)
Theorem model_builder_example :
  let M := ModelBuilder.M 1 12 1200 386.4 0.29 in
  let k := ModelBuilder.k 1 12 29e6 1200 in
  let K := ModelBuilder.K 1 12 29e6 1200 in
  let EIl3 := 29e6 * ModelBuilder.I 1 12 / 1200 ^ 3 in
  (exists m, M = [[m; 0]; [0; m]]) /\
  mat_close 1e-2 M [[5.404; 0]; [0; 5.404]] /\
  mat_close 1e-2 K [[754; -29]; [-29; 754]] /\
  k = [[EIl3 * 12; - (EIl3 * 12)]; [- (EIl3 * 12); EIl3 * 12]] /\
  entry K 0 1 = Some (- (EIl3 * 12)) /\
  entry K 1 0 = Some (- (EIl3 * 12)) /\
  Binary64.beam_within_tolerance = true.
Proof.
  cbv zeta.
  split; [| split; [| split; [| split; [| split; [| split]]]]].
  - exists (ModelBuilder.mbar 1 12 386.4 0.29 * 1200 / 2).
    unfold ModelBuilder.M, smul, eye; simpl.
    apply mat2_eq; lra.
  - unfold mat_close, ModelBuilder.M, ModelBuilder.mbar, smul, eye; simpl.
    entrywise.
  - unfold mat_close, ModelBuilder.K, ModelBuilder.k, ModelBuilder.k1,
      ModelBuilder.k2, ModelBuilder.I, madd, mul_row, zipwith, smul, eye; simpl.
    entrywise.
  - unfold ModelBuilder.k, smul; simpl. apply mat2_eq; ring.
  - unfold ModelBuilder.K, ModelBuilder.k, madd, mul_row, zipwith, smul, eye,
      entry; simpl. f_equal. ring.
  - unfold ModelBuilder.K, ModelBuilder.k, madd, mul_row, zipwith, smul, eye,
      entry; simpl. f_equal. ring.
  - vm_compute. reflexivity.
Qed.

(** ** Damped modal quantities *)

Lemma wn_of_sqrt (dampr x : R) :
  0 <= x -> wn_of dampr x = sqrt ((1 + dampr * dampr) * x).
Proof.
  intros H. unfold wn_of. f_equal.
  replace ((- (dampr * sqrt x)) ^ 2) with (dampr * dampr * sqrt x ^ 2) by ring.
  rewrite pow2_sqrt by assumption. ring.
Qed.

Lemma modal_nth_error (dampr : R) (d : vec) (n : nat) :
  nth_error (ModalSolver.w d) n = option_map sqrt (nth_error d n) /\
  nth_error (ModalSolver.dampf d dampr) n =
    option_map (fun x => - (dampr * sqrt x)) (nth_error d n) /\
  nth_error (ModalSolver.wn d dampr) n =
    option_map (wn_of dampr) (nth_error d n) /\
  nth_error (ModalSolver.roots d dampr) n =
    option_map (fun x => mkC (- (dampr * sqrt x)) (wn_of dampr x))
               (nth_error d n).
Proof.
  assert (Hw : nth_error (ModalSolver.w d) n = option_map sqrt (nth_error d n)).
  { unfold ModalSolver.w. apply nth_error_map. }
  assert (Hf : nth_error (ModalSolver.dampf d dampr) n =
               option_map (fun x => - (dampr * sqrt x)) (nth_error d n)).
  { unfold ModalSolver.dampf. rewrite nth_error_map, Hw.
    destruct (nth_error d n); simpl; [f_equal; ring | reflexivity]. }
  assert (Hn : nth_error (ModalSolver.wn d dampr) n =
               option_map (wn_of dampr) (nth_error d n)).
  { unfold ModalSolver.wn. rewrite nth_error_map, zipwith_nth_error.
    rewrite !nth_error_map, Hw, Hf.
    destruct (nth_error d n); reflexivity. }
  repeat split; try assumption.
  unfold ModalSolver.roots.
  rewrite zipwith_nth_error, !nth_error_map, Hf, Hn.
  destruct (nth_error d n); simpl; [| reflexivity].
  f_equal. apply C_eq; simpl; ring.
Qed.

(** C4.  Elementwise, with [omega = sqrt d]: [dampf = - zeta * omega],
    [wn = sqrt (omega^2 + dampf^2)] and [pole = dampf + i * wn].  For
    [d = [134.1667, 144.9]] and [zeta = 0.05] the computed [omega] is within
    [1e-3] of [[11.583, 12.038]], [dampf] within [1e-4] of
    [[-0.5791, -0.6019]] and [wn] within [1e-3] of [[11.598, 12.053]]: one
    unit of the last digit that the values are given to.  The same holds
    for the values computed in binary64. *)
Theorem modal_damping :
  (forall (zeta : R) (d : vec) (n : nat),
     let omega := sqrt in
     let dampf x := - (zeta * omega x) in
     let wn x := sqrt (omega x ^ 2 + dampf x ^ 2) in
     nth_error (ModalSolver.w d) n = option_map omega (nth_error d n) /\
     nth_error (ModalSolver.dampf d zeta) n = option_map dampf (nth_error d n) /\
     nth_error (ModalSolver.wn d zeta) n = option_map wn (nth_error d n) /\
     nth_error (ModalSolver.roots d zeta) n =
       option_map (fun x => add (of_real (dampf x)) (mul j1 (of_real (wn x))))
                  (nth_error d n)) /\
  (let d := [134.1667; 144.9] in
   vec_close 1e-3 (ModalSolver.w d) [11.583; 12.038] /\
   vec_close 1e-4 (ModalSolver.dampf d 0.05) [-0.5791; -0.6019] /\
   vec_close 1e-3 (ModalSolver.wn d 0.05) [11.598; 12.053]) /\
  Binary64.damping_within_tolerance = true.
Proof.
  split; [| split; [| vm_compute; reflexivity]].
  - intros zeta d n. cbv zeta.
    destruct (modal_nth_error zeta d n) as (Hw & Hf & Hn & Hr).
    repeat split; try assumption.
    rewrite Hr. destruct (nth_error d n); [| reflexivity].
    unfold wn_of. cbn [option_map]. f_equal.
    apply C_eq; cbn [re im add mul of_real j1]; ring.
  - cbv zeta.
    assert (S1 : 11.583 <= sqrt 134.1667 <= 11.5831)
      by (apply sqrt_between; lra).
    assert (S2 : 12.0374 <= sqrt 144.9 <= 12.0375)
      by (apply sqrt_between; lra).
    assert (W1 : 11.5975 <= wn_of 0.05 134.1667 <= 11.5976)
      by (rewrite wn_of_sqrt by lra; apply sqrt_between; lra).
    assert (W2 : 12.0524 <= wn_of 0.05 144.9 <= 12.0525)
      by (rewrite wn_of_sqrt by lra; apply sqrt_between; lra).
    assert (Hwn : ModalSolver.wn [134.1667; 144.9] 0.05 =
                  [wn_of 0.05 134.1667; wn_of 0.05 144.9]).
    { unfold ModalSolver.wn, ModalSolver.dampf, ModalSolver.w, wn_of, zipwith.
      cbn [map combine fst snd].
      apply f_equal2; [f_equal; ring |].
      apply f_equal2; [f_equal; ring | reflexivity]. }
    split; [| split].
    + unfold vec_close, ModalSolver.w. cbn [map].
      repeat first [apply Forall2_nil | apply Forall2_cons].
      * apply (Rabs_close S1); lra.
      * apply (Rabs_close S2); lra.
    + unfold vec_close, ModalSolver.dampf, ModalSolver.w. cbn [map].
      entrywise.
    + rewrite Hwn. unfold vec_close.
      repeat first [apply Forall2_nil | apply Forall2_cons].
      * apply (Rabs_close W1); lra.
      * apply (Rabs_close W2); lra.
Qed.

(** ** The single-mode FRF *)

Lemma frf_build_sdof_map (a r : C) (f : vec) :
  FRFSynthesizer.frf_build_sdof a r f = map (frf_term a r) f.
Proof.
  unfold FRFSynthesizer.frf_build_sdof, FRFSynthesizer.plus,
    FRFSynthesizer.scalar_over, FRFSynthesizer.minus_scalar,
    FRFSynthesizer.j_times, zipwith.
  cbv zeta. induction f as [|x f IH]; simpl; [reflexivity |].
  f_equal. exact IH.
Qed.

(** C5.  For every residue [a], pole [r] and sweep [f], the result of
    [frf_build_sdof] has the length of [f], and its entry at each position
    is [a/(i*f_k - r) + conj(a)/(i*f_k - conj(r))] for the entry [f_k] of [f]
    at that position. *)
Theorem frf_build_sdof_spec (a r : C) (f : vec) :
  length (FRFSynthesizer.frf_build_sdof a r f) = length f /\
  forall n : nat,
    nth_error (FRFSynthesizer.frf_build_sdof a r f) n =
    option_map
      (fun f_k => add (div a (sub (mul j1 (of_real f_k)) r))
                      (div (conj a) (sub (mul j1 (of_real f_k)) (conj r))))
      (nth_error f n).
Proof.
  rewrite frf_build_sdof_map. split.
  - apply length_map.
  - intros n. apply nth_error_map.
Qed.

Lemma conj_denominator (x : R) (r : C) :
  conj (sub (mul j1 (of_real x)) r) = sub (mul j1 (of_real (- x))) (conj r).
Proof. apply C_eq; simpl; ring. Qed.

Lemma frf_term_conj (a r : C) (x : R) :
  frf_term a r (- x) = conj (frf_term a r x).
Proof.
  unfold frf_term.
  rewrite conj_add, !conj_div, !conj_denominator, !conj_conj.
  apply add_comm.
Qed.

(** C7.  For every residue [a], pole [r] and real sweep [f], the FRF at the
    negated frequencies is the conjugate of the FRF: [H(-f) = conj(H(f))],
    entry by entry. *)
Theorem frf_conjugate_symmetry (a r : C) (f : vec) :
  FRFSynthesizer.frf_build_sdof a r (map Ropp f) =
  map conj (FRFSynthesizer.frf_build_sdof a r f).
Proof.
  rewrite !frf_build_sdof_map, !map_map.
  apply map_ext. intros x. apply frf_term_conj.
Qed.

(** ** Residue matrices *)

Lemma residue_matrix_symmetric (q : C) (u : vec) (i k : nat) :
  entry (cscale q (outer u u)) i k = entry (cscale q (outer u u)) k i.
Proof.
  rewrite !entry_cscale, !entry_outer.
  destruct (nth_error u i) as [x|], (nth_error u k) as [y|]; simpl;
    try reflexivity.
  rewrite (Rmult_comm x y). reflexivity.
Qed.

Lemma residue_sym (M : mat) (d : vec) (v : mat) (dampr : R) (mode i k : nat) :
  FRFSynthesizer.residue M d v dampr mode i k =
  FRFSynthesizer.residue M d v dampr mode k i.
Proof.
  unfold FRFSynthesizer.residue.
  destruct (FRFSynthesizer.A M d v dampr) as [Al|] eqn:HA; simpl;
    [| reflexivity].
  destruct (nth_error Al mode) as [Am|] eqn:Hm; simpl; [| reflexivity].
  destruct (mapM_nth_error _ _ HA _ Hm) as (m & _ & Hq).
  destruct (nth_error (FRFSynthesizer.qr M d v dampr) m) as [q|];
    simpl in Hq; [| discriminate].
  injection Hq as <-. apply residue_matrix_symmetric.
Qed.

(** C10.  Every residue matrix [A[mode] = qr[mode] * outer(v_mode, v_mode)]
    is symmetric, [A[mode][i][k] = A[mode][k][i]] (both raise when an index
    is out of range), and so is the FRF built from it: for every sweep, the
    FRF for the pair [(iout, iin)] is the FRF for [(iin, iout)]. *)
Theorem residue_symmetric_frf_reciprocal
    (M : mat) (d : vec) (v : mat) (dampr : R) (mode iout iin : nat) :
  FRFSynthesizer.residue M d v dampr mode iout iin =
    FRFSynthesizer.residue M d v dampr mode iin iout /\
  forall f : vec,
    FRFSynthesizer.h M d v dampr f mode iout iin =
    FRFSynthesizer.h M d v dampr f mode iin iout.
Proof.
  split.
  - apply residue_sym.
  - intros f. unfold FRFSynthesizer.h.
    rewrite (residue_sym M d v dampr mode iout iin). reflexivity.
Qed.

(** ** Superposition *)

Lemma csum_fold_left (zs : list C) : fold_left add zs zero = csum zs.
Proof.
  unfold csum. apply fold_symmetric.
  - apply add_assoc.
  - intros y. apply add_comm.
Qed.

Section Accumulate.
Variables (X T : Type) (g : T -> X -> C).

Lemma fold_left_arrays (ms : list T) (xs : list X) (acc : X -> C) :
  fold_left (zipwith add) (map (fun m => map (g m) xs) ms) (map acc xs) =
  map (fun x => fold_left add (map (fun m => g m x) ms) (acc x)) xs.
Proof.
  revert acc. induction ms as [|m ms IH]; intros acc; simpl.
  - reflexivity.
  - rewrite zipwith_map_map. apply (IH (fun x => add (acc x) (g m x))).
Qed.
End Accumulate.

(** C6.  For all residue matrices [A], poles, sweep [f] and pair
    [(iout, iin)], the multi-mode FRF is the elementwise sum, over the
    modes, of the single-mode FRFs that [frf_build_sdof] builds from
    [A[mode][iout][iin]], [pole[mode]] and [f]; the two fail together when
    an index is out of range. *)
Theorem frf_superposition (A : list cmat) (pole : cvec) (f : vec)
    (iout iin : nat) :
  frf_multi_mode A pole f iout iin =
  option_map (sum_arrays (length f)) (single_mode_frfs A pole f iout iin).
Proof.
  unfold frf_multi_mode, single_mode_frfs.
  destruct (mode_terms A pole iout iin) as [ms|]; simpl; [| reflexivity].
  f_equal. unfold sum_arrays.
  rewrite repeat_map.
  rewrite (map_ext (fun m : C * C => FRFSynthesizer.frf_build_sdof (fst m) (snd m) f)
                   (fun m => map (fun x => frf_term (fst m) (snd m) x) f))
    by (intros m; apply frf_build_sdof_map).
  rewrite (fold_left_arrays (fun (m : C * C) x => frf_term (fst m) (snd m) x)).
  apply map_ext. intros x.
  rewrite csum_fold_left. f_equal.
  apply map_ext. intros [a r]. reflexivity.
Qed.

(** ** Decibels *)

Lemma log10_pos (x : R) : 0 < x -> log10 x = Finite (ln x / ln 10).
Proof.
  intros H. unfold log10.
  destruct (Rlt_dec 0 x); [reflexivity | contradiction].
Qed.

Lemma log10_zero : log10 0 = NegInf.
Proof.
  unfold log10. destruct (Rlt_dec 0 0) as [H|_]; [lra |].
  destruct (Req_dec_T 0 0) as [_|H]; [reflexivity | contradiction H; reflexivity].
Qed.

Lemma log10_neg (x : R) : x < 0 -> log10 x = NaN.
Proof.
  intros H. unfold log10. destruct (Rlt_dec 0 x) as [H'|_]; [lra |].
  destruct (Req_dec_T x 0) as [H'|_]; [lra | reflexivity].
Qed.

Lemma mag2db_nth_error (x : vec) (n : nat) :
  nth_error (FRFSynthesizer.mag2db x) n =
  option_map (fun e => times20 (log10 e)) (nth_error x n).
Proof.
  unfold FRFSynthesizer.mag2db. rewrite !nth_error_map.
  destruct (nth_error x n); reflexivity.
Qed.

(** C8 as it is written fails below zero: at [x = -10] the function returns
    [nan], not [20*log10(|-10|)]. *)
Lemma mag2db_negative_input :
  FRFSynthesizer.mag2db [-10] = [NaN] /\
  FRFSynthesizer.mag2db [-10] <> [Finite (20 * (ln (Rabs (-10)) / ln 10))].
Proof.
  assert (H : FRFSynthesizer.mag2db [-10] = [NaN]).
  { unfold FRFSynthesizer.mag2db. simpl. rewrite log10_neg by lra. reflexivity. }
  split; [exact H |]. rewrite H. discriminate.
Qed.

(** C8, amended.  [mag2db] is elementwise and keeps the length.  At an entry
    [e > 0] it gives [20*log10(e)], which is [20*log10(|e|)]; at [e = 0] it
    gives [-inf]; at [e < 0] it gives [nan].  On magnitudes, as the notebook
    calls it ([mag2db(np.abs(h))]), it gives [20*log10(|z|)] for every entry
    [z <> 0] of [h] and [-inf] for [z = 0]. *)
Theorem mag2db_spec (x : vec) (hh : cvec) (n : nat) (e : R) (z : C) :
  length (FRFSynthesizer.mag2db x) = length x /\
  (nth_error x n = Some e -> 0 < e ->
   nth_error (FRFSynthesizer.mag2db x) n =
     Some (Finite (20 * (ln (Rabs e) / ln 10)))) /\
  (nth_error x n = Some e -> e = 0 ->
   nth_error (FRFSynthesizer.mag2db x) n = Some NegInf) /\
  (nth_error x n = Some e -> e < 0 ->
   nth_error (FRFSynthesizer.mag2db x) n = Some NaN) /\
  (nth_error hh n = Some z -> z <> zero ->
   nth_error (FRFSynthesizer.mag2db (map abs hh)) n =
     Some (Finite (20 * (ln (abs z) / ln 10)))) /\
  (nth_error hh n = Some z -> z = zero ->
   nth_error (FRFSynthesizer.mag2db (map abs hh)) n = Some NegInf).
Proof.
  split; [unfold FRFSynthesizer.mag2db; rewrite !length_map; reflexivity |].
  rewrite !mag2db_nth_error, nth_error_map.
  repeat split; intros -> H; simpl.
  - rewrite log10_pos, Rabs_pos_eq by lra. reflexivity.
  - rewrite H, log10_zero. reflexivity.
  - rewrite log10_neg by assumption. reflexivity.
  - rewrite log10_pos; [reflexivity |].
    destruct (abs_nonneg z) as [Hp|H0]; [exact Hp |].
    symmetry in H0. apply abs_zero_iff in H0. contradiction.
  - apply abs_zero_iff in H. rewrite H, log10_zero. reflexivity.
Qed.

Lemma mag2db_spec_witness :
  nth_error (FRFSynthesizer.mag2db [100; 0; -10]) 0 =
    Some (Finite (20 * (ln (Rabs 100) / ln 10))) /\
  nth_error (FRFSynthesizer.mag2db [100; 0; -10]) 1 = Some NegInf /\
  nth_error (FRFSynthesizer.mag2db [100; 0; -10]) 2 = Some NaN /\
  nth_error (FRFSynthesizer.mag2db (map abs [mkC 3 4; zero])) 0 =
    Some (Finite (20 * (ln (abs (mkC 3 4)) / ln 10))) /\
  nth_error (FRFSynthesizer.mag2db (map abs [mkC 3 4; zero])) 1 = Some NegInf.
Proof.
  split; [| split; [| split; [| split]]].
  - apply (mag2db_spec [100; 0; -10] [] 0 100 zero); [reflexivity | lra].
  - apply (mag2db_spec [100; 0; -10] [] 1 0 zero); reflexivity.
  - apply (mag2db_spec [100; 0; -10] [] 2 (-10) zero); [reflexivity | lra].
  - apply (mag2db_spec [] [mkC 3 4; zero] 0 0 (mkC 3 4)); [reflexivity |].
    intros H. apply (f_equal re) in H. simpl in H. lra.
  - apply (mag2db_spec [] [mkC 3 4; zero] 1 0 zero); reflexivity.
Defined.

(** ** The embedding against the outputs stored in the notebook *)

Lemma qr_value (m wn : R) :
  2 * m * wn <> 0 ->
  div (of_real 1) (mul (mul j2 (of_real m)) (of_real wn)) =
  mkC 0 (- / (2 * m * wn)).
Proof.
  intros H.
  assert (Hm : m <> 0) by (intros ->; apply H; ring).
  assert (Hw : wn <> 0) by (intros ->; apply H; ring).
  apply C_eq; unfold div, norm2; cbn [re im mul j2 of_real]; field; auto.
Qed.

Lemma quotient_between (x y lo hi : R) :
  0 < y -> lo * y <= x -> x <= hi * y -> lo <= / y * x <= hi.
Proof.
  intros Hy H1 H2.
  assert (Hi : 0 < / y) by (apply Rinv_0_lt_compat, Hy).
  assert (E : forall c, / y * (c * y) = c)
    by (intros c; field; lra).
  split.
  - rewrite <- (E lo). apply Rmult_le_compat_l; lra.
  - rewrite <- (E hi). apply Rmult_le_compat_l; lra.
Qed.

Ltac beam_matrices :=
  unfold mat_close, ModalSolver.Mr, ModalSolver.Kr, M_beam, K_beam,
    ModelBuilder.M, ModelBuilder.mbar, ModelBuilder.K, ModelBuilder.k,
    ModelBuilder.k1, ModelBuilder.k2, ModelBuilder.I, v_out, d_out,
    dot, transpose, inner, col, ncols, madd, mul_row, zipwith, smul, eye;
  simpl.

(** The printed mass and stiffness matrices. *)
Lemma stored_M_K :
  mat_close 1e-8 M_beam [[5.40372671; 0]; [0; 5.40372671]] /\
  mat_close 1e-8 K_beam [[754; -29]; [-29; 754]].
Proof. split; beam_matrices; entrywise. Qed.

(** The stored eigenpairs against the computed matrices: [K v] and
    [M v diag(d)] agree, and [v] decouples [M] and [K], to the precision of
    the stored digits.  This checks the data, not the solver. *)
Lemma stored_eigenpairs :
  mat_close 1e-5 (dot K_beam v_out) (mul_row (dot M_beam v_out) d_out) /\
  mat_close 1e-7 (ModalSolver.Mr M_beam v_out) [[1; 0]; [0; 1]] /\
  mat_close 1e-5 (ModalSolver.Kr K_beam v_out) [[134.16666667; 0]; [0; 144.9]].
Proof. repeat split; beam_matrices; entrywise. Qed.

Lemma stored_Mr_diag :
  let Mr := ModalSolver.Mr M_beam v_out in
  0.9999999 <= nth 0 (nth 0 Mr []) 0 <= 1 /\
  0.9999999 <= nth 1 (nth 1 Mr []) 0 <= 1.
Proof. cbv zeta. split; beam_matrices; lra. Qed.

(** The computed residues against the stored [A]: [A[0][0][0]] and
    [A[1][0][1]]. *)
Lemma stored_residues :
  (exists z, FRFSynthesizer.residue M_beam d_out v_out 0.05 0 0 0 = Some z /\
             re z = 0 /\ Rabs (im z - -0.00398917) <= 1e-7 /\
             entry (nth 0 A_out []) 0 0 = Some (mkC 0 (-0.00398917))) /\
  (exists z, FRFSynthesizer.residue M_beam d_out v_out 0.05 1 0 1 = Some z /\
             re z = 0 /\ Rabs (im z - 0.00383858) <= 1e-7 /\
             entry (nth 1 A_out []) 0 1 = Some (mkC 0 0.00383858)).
Proof.
  assert (W0 : 11.5975 <= wn_of 0.05 134.16666667 <= 11.59751)
    by (rewrite wn_of_sqrt by lra; apply sqrt_between; lra).
  assert (W1 : 12.05247 <= wn_of 0.05 144.9 <= 12.05248)
    by (rewrite wn_of_sqrt by lra; apply sqrt_between; lra).
  destruct stored_Mr_diag as [M0 M1].
  split; eexists; (split; [reflexivity |]); cbn [fst snd nth].
  - set (m := nth 0 (nth 0 (ModalSolver.Mr M_beam v_out) []) 0) in *.
    clearbody m.
    replace (sqrt (sqrt 134.16666667 ^ 2 + (- (0.05) * sqrt 134.16666667) ^ 2))
      with (wn_of 0.05 134.16666667) by (unfold wn_of; f_equal; ring).
    set (wn0 := wn_of 0.05 134.16666667) in *. clearbody wn0.
    rewrite qr_value by nra.
    cbn [re im mul of_real]. split; [ring | split; [| reflexivity]].
    assert (Q : 0.00398916 <= / (2 * m * wn0) * (-0.30418536 * -0.30418536)
                <= 0.00398918)
      by (apply quotient_between; nra).
    apply Rabs_le_iff. lra.
  - set (m := nth 1 (nth 1 (ModalSolver.Mr M_beam v_out) []) 0) in *.
    clearbody m.
    replace (sqrt (sqrt 144.9 ^ 2 + (- (0.05) * sqrt 144.9) ^ 2))
      with (wn_of 0.05 144.9) by (unfold wn_of; f_equal; ring).
    set (wn1 := wn_of 0.05 144.9) in *. clearbody wn1.
    rewrite qr_value by nra.
    cbn [re im mul of_real]. split; [ring | split; [| reflexivity]].
    assert (Q : 0.00383857 <= / (2 * m * wn1) * (0.30418536 * 0.30418536)
                <= 0.00383859)
      by (apply quotient_between; nra).
    apply Rabs_le_iff. lra.
Qed.

(** The last cell, [mode = 1], [iin = 0], [iout = 0], builds an FRF with one
    value per entry of [freqs]. *)
Lemma stored_cell_h :
  exists out,
    FRFSynthesizer.h M_beam d_out v_out 0.05 FRFSynthesizer.freqs 1 0 0 = Some out /\
    length out = FRFSynthesizer.ns.
Proof.
  eexists. split; [reflexivity |].
  rewrite frf_build_sdof_map, length_map.
  unfold FRFSynthesizer.freqs, linspace. rewrite length_map, length_seq.
  reflexivity.
Qed.

(** The multi-mode FRF and the single-mode FRFs of the stored residues are
    defined for the pairs of the 2-DOF model. *)
Lemma stored_multi_mode (f : vec) :
  exists out hs,
    frf_multi_mode A_out (ModalSolver.roots d_out 0.05) f 0 1 = Some out /\
    single_mode_frfs A_out (ModalSolver.roots d_out 0.05) f 0 1 = Some hs /\
    length out = length f /\ length hs = 2%nat.
Proof.
  eexists. eexists. split; [reflexivity | split; [reflexivity |]].
  split; [apply length_map | reflexivity].
Qed.

(** ** The numerical examples with rounding *)

(** In binary64 the "Build Beam" cell gives [M = 5.403726708074534 * eye(2)]
    and [K = [[754, -29], [-29, 754]]] exactly, within the tolerance of the
    example. *)
Lemma binary64_build_beam :
  Binary64.M_beam = Binary64.M_value /\
  Binary64.K_beam = Binary64.K_value /\
  Binary64.beam_within_tolerance = true.
Proof. repeat split; vm_compute; reflexivity. Qed.

(** In binary64 the damping quantities of the example are the floats below,
    within the tolerances of the example. *)
Lemma binary64_damping :
  Binary64.w Binary64.d_example = Binary64.w_value /\
  Binary64.dampf Binary64.d_example Binary64.dampr_example =
    Binary64.dampf_value /\
  Binary64.wn Binary64.d_example Binary64.dampr_example = Binary64.wn_value /\
  Binary64.damping_within_tolerance = true.
Proof. repeat split; vm_compute; reflexivity. Qed.

(** * Further properties of the cells *)

(** ** The beam matrices for all inputs *)

Section BeamFacts.
Variables b h E l grav rho : R.
Let c := E * ModelBuilder.I b h / l ^ 3.
Let m := ModelBuilder.mbar b h grav rho * l / 2.


End BeamFacts.






(** ** The decoupled matrices *)









Lemma nth_error_col (mode i : nat) (v : mat) :
  nth_error (col mode v) i =
  option_map (fun row => nth mode row 0) (nth_error v i).
Proof. unfold col. apply nth_error_map. Qed.





(** ** Poles *)



(** X6.  With the damping ratio [0] and eigenvalues that are not negative,
    the damping factors are [0], the damped frequencies are the undamped
    ones, and every pole is [i * sqrt x]. *)
Theorem zero_damping (d : vec) :
  Forall (fun x => 0 <= x) d ->
  ModalSolver.dampf d 0 = map (fun _ => 0) d /\
  ModalSolver.wn d 0 = ModalSolver.w d /\
  ModalSolver.roots d 0 = map (fun x => mkC 0 (sqrt x)) d.
Proof.
  intros Hd.
  assert (Hf : ModalSolver.dampf d 0 = map (fun _ => 0) d).
  { unfold ModalSolver.dampf, ModalSolver.w. rewrite map_map.
    apply map_ext. intros x. ring. }
  assert (Hw : ModalSolver.wn d 0 = ModalSolver.w d).
  { unfold ModalSolver.wn. rewrite Hf. unfold ModalSolver.w, zipwith.
    clear Hf. induction Hd as [|x d Hx Hd IH]; cbn [map combine fst snd];
      [reflexivity |].
    f_equal; [| exact IH].
    replace (sqrt x ^ 2 + 0 ^ 2) with (sqrt x * sqrt x) by ring.
    apply sqrt_square, sqrt_pos. }
  repeat split; try assumption.
  unfold ModalSolver.roots. rewrite Hw, Hf. unfold ModalSolver.w, zipwith.
  clear. induction d as [|x d IH]; simpl; [reflexivity |].
  f_equal; [apply C_eq; simpl; ring | exact IH].
Qed.

Lemma zero_damping_witness :
  ModalSolver.wn d_out 0 = ModalSolver.w d_out.
Proof.
  apply (@zero_damping d_out).
  unfold d_out. repeat apply Forall_cons; try apply Forall_nil; lra.
Defined.

(** ** Shapes and index errors of the residues *)

Lemma ncols_square (N : nat) (v : mat) : square_shape N v -> ncols v = N.
Proof.
  intros [Hl Hr]. unfold ncols. destruct v as [|row v]; simpl in *.
  - exact Hl.
  - inversion Hr; assumption.
Qed.

Lemma length_dot (A B : mat) : length (dot A B) = length A.
Proof. unfold dot. apply length_map. Qed.

Lemma ncols_dot (A B : mat) :
  ncols (dot A B) = match A with [] => 0%nat | _ => ncols B end.
Proof.
  destruct A as [|row A]; unfold dot, ncols; cbn [map hd length];
    [reflexivity |].
  rewrite length_map, length_seq. reflexivity.
Qed.

Lemma length_Mr (M v : mat) : length (ModalSolver.Mr M v) = ncols v.
Proof.
  unfold ModalSolver.Mr, dot, transpose.
  rewrite !length_map, length_seq. reflexivity.
Qed.

Lemma ncols_Mr (M v : mat) : ncols (ModalSolver.Mr M v) = ncols v.
Proof.
  unfold ModalSolver.Mr. rewrite ncols_dot.
  pose proof (length_dot (transpose v) M) as Hl.
  unfold transpose in Hl at 2. rewrite length_map, length_seq in Hl.
  destruct (dot (transpose v) M); simpl in Hl; [exact Hl | reflexivity].
Qed.

Lemma length_diag_Mr (M v : mat) :
  length (diag (ModalSolver.Mr M v)) = ncols v.
Proof.
  unfold diag, nrows. rewrite length_map, length_seq, ncols_Mr, length_Mr.
  apply Nat.min_id.
Qed.

Lemma length_wn (d : vec) (zeta : R) :
  length (ModalSolver.wn d zeta) = length d.
Proof.
  unfold ModalSolver.wn, ModalSolver.dampf, ModalSolver.w, zipwith.
  rewrite !length_map, length_combine, !length_map. apply Nat.min_id.
Qed.

Lemma length_qr (M : mat) (d : vec) (v : mat) (zeta : R) :
  length (FRFSynthesizer.qr M d v zeta) = Nat.min (ncols v) (length d).
Proof.
  unfold FRFSynthesizer.qr, zipwith.
  rewrite !length_map, length_combine, length_map, length_diag_Mr, length_wn.
  reflexivity.
Qed.

Lemma mapM_map (X Y : Type) (f : X -> option Y) (g : X -> Y) (xs : list X) :
  (forall x, In x xs -> f x = Some (g x)) -> mapM f xs = Some (map g xs).
Proof.
  induction xs as [|x xs IH]; intros H; simpl; [reflexivity |].
  rewrite (H x (or_introl eq_refl)). simpl.
  rewrite IH by (intros y Hy; apply H; right; exact Hy). reflexivity.
Qed.

Section ResidueShape.
Variables (M : mat) (d : vec) (v : mat) (zeta : R).

Let mode_matrix (mode : nat) : cmat :=
  cscale (nth mode (FRFSynthesizer.qr M d v zeta) zero)
         (outer (col mode v) (col mode v)).

Lemma A_defined :
  (ncols v <= length d)%nat ->
  FRFSynthesizer.A M d v zeta = Some (map mode_matrix (seq 0 (ncols v))).
Proof.
  intros H. unfold FRFSynthesizer.A, FRFSynthesizer.ne.
  apply mapM_map. intros mode Hin. apply in_seq in Hin.
  assert (Hlt : (mode < length (FRFSynthesizer.qr M d v zeta))%nat)
    by (rewrite length_qr; lia).
  rewrite (nth_error_nth' _ zero Hlt). reflexivity.
Qed.

Lemma residue_lookup (mode i k : nat) :
  (ncols v <= length d)%nat ->
  FRFSynthesizer.residue M d v zeta mode i k =
  if (mode <? ncols v)%nat then
    match nth_error (col mode v) i, nth_error (col mode v) k with
    | Some x, Some y =>
        Some (mul (nth mode (FRFSynthesizer.qr M d v zeta) zero)
                  (of_real (x * y)))
    | _, _ => None
    end
  else None.
Proof.
  intros H. unfold FRFSynthesizer.residue. rewrite (A_defined H).
  cbn [bind]. rewrite nth_error_map, nth_error_seq.
  destruct (Nat.ltb_spec mode (ncols v)) as [Hm|Hm]; cbn [option_map bind];
    [| reflexivity].
  cbn [Nat.add]. unfold mode_matrix. rewrite entry_cscale, entry_outer.
  destruct (nth_error (col mode v) i), (nth_error (col mode v) k); reflexivity.
Qed.
End ResidueShape.


(** X7.  When [v] has shape [(N, N)] and [d] has [N] entries, as the solver
    returns them, [A] is built without an [IndexError]: it holds [N]
    matrices of shape [(N, N)].  [A[mode][iout][iin]], and the FRF built
    from it, are defined exactly for [mode], [iout] and [iin] below [N];
    a larger index raises. *)
Theorem residue_defined_iff (M : mat) (d : vec) (v : mat) (zeta : R)
    (N mode i k : nat) :
  square_shape N v -> length d = N ->
  (exists Al, FRFSynthesizer.A M d v zeta = Some Al /\ length Al = N /\
              Forall (square_shape N) Al) /\
  (FRFSynthesizer.residue M d v zeta mode i k <> None <->
   (mode < N /\ i < N /\ k < N)%nat) /\
  (forall f, FRFSynthesizer.h M d v zeta f mode i k <> None <->
             (mode < N /\ i < N /\ k < N)%nat).
Proof.
  intros Hv Hd. pose proof (ncols_square Hv) as Hc. destruct Hv as [Hl Hrows].
  assert (Hle : (ncols v <= length d)%nat) by lia.
  assert (Hres : FRFSynthesizer.residue M d v zeta mode i k <> None <->
                 (mode < N /\ i < N /\ k < N)%nat).
  { rewrite (@residue_lookup M d v zeta mode i k Hle), Hc, !nth_error_col.
    destruct (Nat.ltb_spec mode N) as [Hm|Hm].
    - destruct (nth_error v i) as [ri|] eqn:Hi; cbn [option_map].
      + assert (Hi' : (i < N)%nat)
          by (rewrite <- Hl; apply nth_error_Some; rewrite Hi; discriminate).
        destruct (nth_error v k) as [rk|] eqn:Hk; cbn [option_map].
        * assert (Hk' : (k < N)%nat)
            by (rewrite <- Hl; apply nth_error_Some; rewrite Hk; discriminate).
          split; [intros _; auto | intros _; discriminate].
        * apply nth_error_None in Hk. split; [intros H; contradiction | lia].
      + apply nth_error_None in Hi. split; [intros H; contradiction | lia].
    - split; [intros H; contradiction | lia]. }
  split; [| split; [exact Hres |]].
  - rewrite (@A_defined M d v zeta Hle). eexists. split; [reflexivity |].
    rewrite length_map, length_seq. split; [exact Hc |].
    apply Forall_forall. intros Am Hin. apply in_map_iff in Hin.
    destruct Hin as (m & <- & _). unfold square_shape, cscale, outer, col.
    rewrite !length_map. split; [exact Hl |].
    apply Forall_forall. intros row Hrow.
    apply in_map_iff in Hrow. destruct Hrow as (r0 & <- & Hr0).
    apply in_map_iff in Hr0. destruct Hr0 as (x0 & <- & _).
    rewrite !length_map. exact Hl.
  - intros f. rewrite <- Hres. unfold FRFSynthesizer.h.
    destruct (FRFSynthesizer.residue M d v zeta mode i k) as [a|] eqn:Ha;
      cbn [bind]; [| tauto].
    assert (Hm : (mode < N)%nat) by (apply Hres; discriminate).
    destruct (modal_nth_error zeta d mode) as (_ & _ & _ & Hr). rewrite Hr.
    destruct (nth_error d mode) as [x|] eqn:Hx; cbn [option_map bind].
    + split; intros _; discriminate.
    + apply nth_error_None in Hx. lia.
Qed.

Lemma residue_defined_iff_witness :
  FRFSynthesizer.residue M_beam d_out v_out 0.05 1 0 1 <> None /\
  ~ FRFSynthesizer.residue M_beam d_out v_out 0.05 2 0 1 <> None.
Proof.
  assert (Hv : square_shape 2 v_out).
  { split; [reflexivity |]. unfold v_out.
    repeat apply Forall_cons; try apply Forall_nil; reflexivity. }
  split.
  - apply (@residue_defined_iff M_beam d_out v_out 0.05 2 1 0 1 Hv eq_refl).
    lia.
  - intros H.
    apply (@residue_defined_iff M_beam d_out v_out 0.05 2 2 0 1 Hv eq_refl) in H.
    lia.
Defined.

(** ** The residue and the FRF of one mode in closed form *)


Section OneMode.
Variables (M : mat) (d : vec) (v : mat) (zeta : R).
Variables (mode i k : nat) (x : R) (ri rk : vec).
Hypothesis Hshape : (ncols v <= length d)%nat.
Hypothesis Hmode : (mode < ncols v)%nat.
Hypothesis Hx : nth_error d mode = Some x.
Hypothesis Hi : nth_error v i = Some ri.
Hypothesis Hk : nth_error v k = Some rk.

Let m := item (ModalSolver.Mr M v) mode mode.



End OneMode.




(** ** Algebra of the single-mode FRF *)







(** ** The frequency sweep *)

Lemma linspace_length (a b : R) (num : nat) : length (linspace a b num) = num.
Proof. unfold linspace. rewrite length_map, length_seq. reflexivity. Qed.

Lemma linspace_nth_error (a b : R) (num n : nat) :
  (n < num)%nat ->
  nth_error (linspace a b num) n = Some (a + INR n * ((b - a) / (INR num - 1))).
Proof.
  intros H. unfold linspace. rewrite nth_error_map, nth_error_seq.
  destruct (Nat.ltb_spec n num); [reflexivity | lia].
Qed.

(** [np.linspace(a, b, num)] has [num] entries; it starts at [a];
    for [num >= 2] it ends at [b]; and two consecutive entries differ by
    [(b - a) / (num - 1)]. *)
Theorem linspace_endpoints (a b : R) (num : nat) :
  length (linspace a b num) = num /\
  ((1 <= num)%nat -> nth_error (linspace a b num) 0 = Some a) /\
  ((2 <= num)%nat -> nth_error (linspace a b num) (num - 1) = Some b) /\
  (forall n x y, nth_error (linspace a b num) n = Some x ->
                 nth_error (linspace a b num) (S n) = Some y ->
                 y - x = (b - a) / (INR num - 1)).
Proof.
  split; [apply linspace_length |]. split; [| split].
  - intros H. rewrite linspace_nth_error by lia. f_equal. simpl. ring.
  - intros H. rewrite linspace_nth_error by lia. f_equal.
    rewrite minus_INR by lia. simpl.
    assert (Hn : 2 <= INR num) by (apply (le_INR 2); assumption).
    field. lra.
  - intros n x y Hx Hy.
    assert (Hlt : (S n < num)%nat).
    { assert (Hy' : nth_error (linspace a b num) (S n) <> None)
        by (rewrite Hy; discriminate).
      apply nth_error_Some in Hy'. rewrite linspace_length in Hy'. exact Hy'. }
    rewrite linspace_nth_error in Hx by lia.
    rewrite linspace_nth_error in Hy by lia.
    assert (Ex : x = a + INR n * ((b - a) / (INR num - 1))) by congruence.
    assert (Ey : y = a + INR (S n) * ((b - a) / (INR num - 1))) by congruence.
    rewrite Ex, Ey, S_INR. ring.
Qed.

Lemma linspace_endpoints_witness :
  nth_error FRFSynthesizer.freqs 0 = Some (-25) /\
  nth_error FRFSynthesizer.freqs 127 = Some 25.
Proof.
  split.
  - apply (proj1 (proj2 (linspace_endpoints (-25) 25 128))).
    unfold FRFSynthesizer.ns. lia.
  - apply (proj1 (proj2 (proj2 (linspace_endpoints (-25) 25 128)))).
    unfold FRFSynthesizer.ns. lia.
Defined.






(** ** Decibels of a gain *)






(** ** The mode-shape figures *)

Lemma zipwith_zero_l (u : vec) :
  zipwith Rplus (map (fun _ => 0) u) u = u.
Proof.
  unfold zipwith. induction u as [|x u IH]; simpl; [reflexivity |].
  rewrite IH. f_equal. ring.
Qed.

Section FigureFacts.
Import String.StringSyntax.
Local Open Scope string_scope.

(** X15.  For [v] with two rows there is one figure per column of [v], in
    order.  The figure of [mode] is titled with [mode + 1]; it holds the
    undeformed beam [(0, 0)] to [(l, 0)] and a second line whose ordinates
    are the mode shape [v[:, mode]] itself, drawn at the abscissas
    [0 + v[0][mode]] and [l + v[1][mode]]: the mode shape is added to the
    abscissas as well. *)
Theorem figures_show_mode_shapes (l : R) (v : mat) (mode : nat) (r0 r1 : vec) :
  v = [r0; r1] -> (mode < ncols v)%nat ->
  length (ModeShapePlotter.figures l v) = ncols v /\
  exists fig deformed,
    nth_error (ModeShapePlotter.figures l v) mode = Some fig /\
    ModeShapePlotter.title fig =
      String.append "Mode " (ModeShapePlotter.str (mode + 1)) /\
    ModeShapePlotter.ylim fig = (-0.5, 0.5) /\
    ModeShapePlotter.lines fig =
      [ModeShapePlotter.mkLine [0; l] [0; 0] "o--"; deformed] /\
    ModeShapePlotter.ydata deformed = col mode v /\
    ModeShapePlotter.xdata deformed = [0 + nth mode r0 0; l + nth mode r1 0].
Proof.
  intros -> Hm. unfold ModeShapePlotter.figures.
  split; [rewrite length_map, length_seq; reflexivity |].
  rewrite nth_error_map, nth_error_seq.
  destruct (Nat.ltb_spec mode (ncols [r0; r1])) as [_|Hge]; [| lia].
  cbn [option_map Nat.add]. eexists. eexists.
  split; [reflexivity |]. cbn [ModeShapePlotter.title ModeShapePlotter.ylim
    ModeShapePlotter.lines ModeShapePlotter.ydata ModeShapePlotter.xdata].
  repeat split.
  unfold ModeShapePlotter.coords. cbn [nth].
  apply (zipwith_zero_l (col mode [r0; r1])).
Qed.
End FigureFacts.

Lemma figures_show_mode_shapes_witness :
  length (ModeShapePlotter.figures 1200 v_out) = 2%nat.
Proof.
  apply (@figures_show_mode_shapes 1200 v_out 1 _ _ eq_refl).
  unfold ncols, v_out; cbn [hd length]; lia.
Defined.

(** ** The closed-form eigenpairs against the stored output *)

(** For the inputs of the notebook, the closed-form eigenvalues and mode
    shapes of the beam are the stored [d] and [v], to the stored digits. *)
Lemma stored_eigenpairs_closed_form :
  let c := 29e6 * ModelBuilder.I 1 12 / 1200 ^ 3 in
  let m := ModelBuilder.mbar 1 12 386.4 0.29 * 1200 / 2 in
  vec_close 1e-7 (beam_d c m) d_out /\ mat_close 1e-8 (beam_v m) v_out.
Proof.
  cbv zeta. unfold beam_d, beam_v, d_out, v_out, ModelBuilder.I,
    ModelBuilder.mbar. cbv zeta.
  set (m := 1 * 12 * 0.29 / 386.4 * 1200 / 2).
  assert (Hm : 5.4037267080 <= m <= 5.4037267081) by (subst m; lra).
  split.
  - unfold vec_close. subst m. entrywise.
  - assert (Hq : 3.28746915 <= sqrt (2 * m) <= 3.28746916)
      by (apply sqrt_between; nra).
    assert (Hs : 0.3041853630 <= / sqrt (2 * m) * 1 <= 0.3041853641)
      by (apply quotient_between; lra).
    rewrite Rmult_1_r in Hs.
    set (s := / sqrt (2 * m)) in *. clearbody s.
    unfold mat_close. entrywise.
Qed.
